(** * fenviee: the [Env] registry of [src/env/index.ts]

    A shallow embedding of the three exports of the module ([Env],
    [CreateEnv], [EnvUtility]) and the properties of its lookup and of its
    required-key validation.

    Modelling choices, all taken from the source:
    - [process.env] is a string-keyed object whose own properties are
      strings: a [gmap string string].  A read of a key it does not own
      finds the member [Object.prototype] holds under that name, if any.
      The order in which [Object.keys] lists the keys is the environment's
      own and is not modelled: no statement below depends on it.
    - [this.env] is an alias of [process.env], not a copy, so a lookup reads
      the environment of the world it runs in.
    - [default_env] is a caller-supplied ordinary object, as an object
      literal is: it inherits from [Object.prototype].  Reading one of its
      properties runs caller code when the property is an accessor, and that
      code may throw: this is the failure the [try]/[catch] of [get] handles.
    - [console.warn] appends to the console of the world.
    - every field of [Env] is [readonly] and no method assigns one, so an
      instance is an immutable record. *)

From stdpp Require Import gmap strings list fin_maps.

Open Scope string_scope.
Open Scope list_scope.

(** ** JavaScript values, errors and completions *)

Record Error := mkError { message : string }.

(** The values [get] can evaluate to.  [VObject member] is the function or
    object that a read of the member [member] of [Object.prototype] yields;
    it is neither a string nor a boolean. *)
Inductive value :=
  | VString (s : string)
  | VBoolean (b : bool)
  | VUndefined
  | VObject (member : string).

(** A property of a plain object holding strings: a data property, or an
    accessor whose getter throws. *)
Inductive property :=
  | Data (s : string)
  | Accessor (raises : Error).

(** What [console.warn] was called with. *)
Inductive logged :=
  | LogText (s : string)
  | LogError (e : Error).

Inductive completion (A : Type) :=
  | Normal (a : A)
  | Throw (e : Error).
Arguments Normal {A} a.
Arguments Throw {A} e.

#[global] Instance Error_eq_dec : EqDecision Error.
Proof. solve_decision. Defined.
#[global] Instance value_eq_dec : EqDecision value.
Proof. solve_decision. Defined.
#[global] Instance property_eq_dec : EqDecision property.
Proof. solve_decision. Defined.
#[global] Instance logged_eq_dec : EqDecision logged.
Proof. solve_decision. Defined.

(** ** The world: the live environment and the console *)

Record World := mkWorld {
  process_env : gmap string string;
  console : list logged
}.

(** Computations that read the world, may log, and may throw. *)
Definition M (A : Type) : Type := World → completion A * World.

Definition M_ret {A} (a : A) : M A := λ w, (Normal a, w).

Definition throw {A} (e : Error) : M A := λ w, (Throw e, w).

Definition M_bind {A B} (k : A → M B) (m : M A) : M B :=
  λ w, match m w with
       | (Normal a, w') => k a w'
       | (Throw e, w') => (Throw e, w')
       end.

Definition try_catch {A} (body : M A) (handler : Error → M A) : M A :=
  λ w, match body w with
       | (Normal a, w') => (Normal a, w')
       | (Throw e, w') => handler e w'
       end.

#[global] Instance M_mret : MRet M := @M_ret.
#[global] Instance M_mbind : MBind M := @M_bind.

Definition console_warn (x : logged) : M unit :=
  λ w, (Normal tt, {| process_env := process_env w; console := console w ++ [x] |}).

(** The names of the members of [Object.prototype]. *)
Definition Object_prototype_names : list string :=
  ["constructor"; "__defineGetter__"; "__defineSetter__"; "hasOwnProperty";
   "__lookupGetter__"; "__lookupSetter__"; "isPrototypeOf";
   "propertyIsEnumerable"; "toString"; "valueOf"; "__proto__"; "toLocaleString"].

(** What an object that inherits from [Object.prototype] and does not own
    [key] yields for [key]: the inherited member, a function or an object. *)
Definition Object_prototype (key : string) : option value :=
  if bool_decide (key ∈ Object_prototype_names) then Some (VObject key) else None.

(** The value of [obj[key]] when [obj] does not own [key]. *)
Definition inherited_or_undefined (key : string) : value :=
  default VUndefined (Object_prototype key).

(** [process.env[key]] *)
Definition env_read (key : string) : M value :=
  λ w, (Normal (match process_env w !! key with
                | Some s => VString s
                | None => inherited_or_undefined key
                end), w).

(** [obj[key]] on a caller-supplied object *)
Definition property_read (obj : gmap string property) (key : string) : M value :=
  match obj !! key with
  | Some (Data s) => mret (VString s)
  | Some (Accessor e) => throw e
  | None => mret (inherited_or_undefined key)
  end.

(** JavaScript truthiness on the values above. *)
Definition truthy (v : value) : bool :=
  match v with
  | VString s => negb (String.eqb s "")
  | VBoolean b => b
  | VUndefined => false
  | VObject _ => true
  end.

(** The read [process.env[key]] is falsy: the environment holds the empty
    string for the key, or holds nothing and the key names no member of
    [Object.prototype]. *)
Definition no_live_value (w : World) (key : string) : Prop :=
  process_env w !! key = Some ""
  ∨ (process_env w !! key = None ∧ Object_prototype key = None).

#[global] Instance no_live_value_dec w key : Decision (no_live_value w key).
Proof. unfold no_live_value. apply _. Defined.

(** [a || b]: the right operand is evaluated only when the left is falsy. *)
Definition or_else (a : value) (b : M value) : M value :=
  if truthy a then mret a else b.

(** ** Arrays and sets of strings *)

(** [Object.keys(obj)]: the own keys, each once.  The list is in the order
    of the map, which stands for the order of the environment. *)
Definition Object_keys {V} (obj : gmap string V) : list string :=
  (map_to_list obj).*1.

(** [Set.prototype.add]: a set keeps the first insertion of each element. *)
Definition Set_add (seen : list string) (x : string) : list string :=
  if bool_decide (x ∈ seen) then seen else seen ++ [x].

(** [Array.from(new Set(l))] *)
Definition Array_from_Set (l : list string) : list string :=
  foldl Set_add [] l.

(** [arr.includes(key)] *)
Definition includes (arr : list string) (key : string) : bool :=
  bool_decide (key ∈ arr).

(** [arr.join(sep)] *)
Definition Array_join (sep : string) (arr : list string) : string :=
  String.concat sep arr.

(** ** The class [Env] *)

(** [ignoreErrors : boolean | 0] *)
Inductive IgnoreErrors :=
  | IBoolean (b : bool)
  | IZero.

#[global] Instance IgnoreErrors_eq_dec : EqDecision IgnoreErrors.
Proof. solve_decision. Defined.

(** The names the specification gives to the three settings. *)
Definition Raise : IgnoreErrors := IBoolean false.
Definition WarnAndContinue : IgnoreErrors := IBoolean true.
Definition Silent : IgnoreErrors := IZero.

(** An instance.  [GlobalDefaultIncludes] is the type parameter of the
    class: it indexes the type and is erased at run time, so no field
    carries it. *)
Record Env (GlobalDefaultIncludes : bool) := mkEnv {
  keys : list string;
  required_keys : list string;
  default_env : gmap string property;
  ignoreErrors : IgnoreErrors
}.
Arguments mkEnv {GlobalDefaultIncludes} _ _ _ _.
Arguments keys {GlobalDefaultIncludes} _.
Arguments required_keys {GlobalDefaultIncludes} _.
Arguments default_env {GlobalDefaultIncludes} _.
Arguments ignoreErrors {GlobalDefaultIncludes} _.

Definition newline : string := String (Ascii.ascii_of_nat 10) EmptyString.

(** The text of the error and of the warning of [init]. *)
Definition not_defined_message (keys : list string) : string :=
  "keys in your .env are not defined. Define next keys:" +:+ newline +:+ Array_join ", " keys.

(** One iteration of the loop of [init]: [keys] is declared inside the
    loop body, so it starts empty at every required key. *)
Definition init_step (this_keys : list string) (ignoreErrors : IgnoreErrors)
    (key : string) : M unit :=
  let keys := [] in
  let keys := if negb (includes this_keys key) then keys ++ [key] else keys in
  if negb (length keys =? 0)%nat then
    match ignoreErrors with
    | IBoolean false => throw (mkError (not_defined_message keys))
    | IBoolean true => console_warn (LogText (not_defined_message keys))
    | IZero => mret tt
    end
  else mret tt.

(** [for (const key of this.required_keys) { ... }] *)
Fixpoint init_loop (this_keys : list string) (ignoreErrors : IgnoreErrors)
    (required_keys : list string) : M unit :=
  match required_keys with
  | [] => mret tt
  | key :: rest =>
      init_step this_keys ignoreErrors key;;
      init_loop this_keys ignoreErrors rest
  end.

Definition init {G} (this : Env G) : M unit :=
  init_loop (keys this) (ignoreErrors this) (required_keys this).

(** [new Env(keys, required_keys, default_env, ignoreErrors)]; the last
    parameter is optional and defaults to [false]. *)
Definition new_Env {G} (keys_arg : list string) (required_keys : list string)
    (default_env : gmap string property) (ignoreErrors : option IgnoreErrors)
    : M (Env G) :=
  λ w,
    let this : Env G :=
      mkEnv (Array_from_Set (Object_keys (process_env w) ++ keys_arg))
            required_keys default_env (default (IBoolean false) ignoreErrors) in
    (init this;; mret this) w.

(** The body of the [try] block of [get]. *)
Definition get_try {G} (this : Env G) (key : string) (defaultIncludes : bool)
    : M value :=
  live ← env_read key;
  or_else live
    (if defaultIncludes then property_read (default_env this) key
     else mret (VBoolean false)).

(** [get(key, defaultIncludes = false)]; [None] is the omitted argument. *)
Definition get {G} (this : Env G) (key : string) (defaultIncludes : option bool)
    : M value :=
  let defaultIncludes := default false defaultIncludes in
  try_catch (get_try this key defaultIncludes)
    (λ error,
       match ignoreErrors this with
       | IBoolean false => throw error
       | IBoolean true => console_warn (LogError error);; mret (VBoolean false)
       | IZero => mret (VBoolean false)
       end).

(** ** [CreateEnv] and [EnvUtility] *)

(** The argument record of [CreateEnv] and of the constructor of
    [EnvUtility]. *)
Module Args.
Record t := mk {
  keys : list string;
  requiredKeys : list string;
  defaultEnv : gmap string property;
  pathToEnv : string;
  ignoreErrors : IgnoreErrors
}.
End Args.

(** The same object seen at another instance of the class type: the
    assignment in the constructor of [EnvUtility] stores the [Env<.., false, ..>]
    that [CreateEnv] returns in a field declared [Env<.., true, ..>]. *)
Definition retype {G G'} (e : Env G) : Env G' :=
  mkEnv (keys e) (required_keys e) (default_env e) (ignoreErrors e).

Record EnvUtility := mkEnvUtility { env : Env true }.

Section Loader.

(** The imports of the module: [config] of dotenv, which may change the
    live environment, and [normalize] and [join] of path. *)
Variable config : string → M unit.
Variable normalize : string → string.
Variable join : string → string.

Definition CreateEnv (a : Args.t) : M (Env false) :=
  config (normalize (join (Args.pathToEnv a)));;
  env ← new_Env (Args.keys a) (Args.requiredKeys a) (Args.defaultEnv a)
                (Some (Args.ignoreErrors a));
  mret env.

Definition new_EnvUtility (a : Args.t) : M EnvUtility :=
  created ← CreateEnv a;
  mret {| env := retype created |}.

End Loader.

(** A loader that finds no file and leaves the environment as it is. *)
Definition config_noop : string → M unit := λ _, mret tt.

(** ** Concrete scenarios *)

(** The scenario of the documentation of the module: three declared keys,
    one of them required and set in the environment, defaults for the two
    others. *)
Definition scenario_world : World :=
  mkWorld {[ "CLIENT_URL" := "https://x.test" ]} [].

Definition scenario_keys : list string := ["PORT"; "CLIENT_URL"; "COOKIE_AGE"].

Definition scenario_required : list string := ["CLIENT_URL"].

Definition scenario_defaults : gmap string property :=
  {[ "PORT" := Data "3000"; "COOKIE_AGE" := Data "604800" ]}.

Definition scenario_args (ig : IgnoreErrors) : Args.t :=
  Args.mk scenario_keys scenario_required scenario_defaults "./.env" ig.

(** The instance the scenario constructs. *)
Definition scenario_env {G} (ig : IgnoreErrors) : Env G :=
  mkEnv ["CLIENT_URL"; "PORT"; "COOKIE_AGE"] scenario_required scenario_defaults ig.

(** An instance whose one declared key, [toString], has a default and is
    the name of a member of [Object.prototype]. *)
Definition inherited_defaults : gmap string property :=
  {[ "toString" := Data "fallback" ]}.

Definition inherited_env (ig : IgnoreErrors) : Env false :=
  mkEnv ["CLIENT_URL"; "toString"] [] inherited_defaults ig.

(** An empty environment and an empty console. *)
Definition empty_world : World := mkWorld ∅ [].

(** A defaults table whose property [PORT] is an accessor that throws. *)
Definition boom : Error := mkError "boom".

Definition throwing_defaults : gmap string property :=
  {[ "PORT" := Accessor boom ]}.

Definition throwing_env (ig : IgnoreErrors) : Env false :=
  mkEnv ["PORT"] [] throwing_defaults ig.

(** A loader whose file holds the one pair [key=v]: like dotenv, it sets
    the key when the environment lacks it and keeps the live value
    otherwise. *)
Definition config_pair (key v : string) : string → M unit :=
  λ _ w,
    (Normal tt,
     {| process_env := match process_env w !! key with
                       | Some _ => process_env w
                       | None => <[key := v]> (process_env w)
                       end;
        console := console w |}).

(** A loader that throws. *)
Definition config_throws (err : Error) : string → M unit := λ _, throw err.

(** A required key is missing when it is neither a key of the live
    environment nor a declared key. *)
Definition missing (w : World) (K : list string) (key : string) : Prop :=
  process_env w !! key = None ∧ key ∉ K.

#[global] Instance missing_dec w K key : Decision (missing w K key).
Proof. unfold missing. apply _. Defined.

(** * Properties *)

(** ** Arrays, sets and object keys *)

Lemma elem_of_foldl_Set_add (l seen : list string) (x : string) :
  x ∈ foldl Set_add seen l ↔ x ∈ seen ∨ x ∈ l.
Proof.
  revert seen. induction l as [|y l IH]; intros seen; simpl.
  - set_solver.
  - rewrite IH. unfold Set_add. case_bool_decide; set_solver.
Qed.

Lemma NoDup_foldl_Set_add (l seen : list string) :
  NoDup seen → NoDup (foldl Set_add seen l).
Proof.
  revert seen. induction l as [|y l IH]; intros seen Hseen; simpl; [done|].
  apply IH. unfold Set_add. case_bool_decide; [done|].
  apply NoDup_app. split_and!; [done| |apply NoDup_singleton].
  intros z Hz Hy. apply list_elem_of_singleton in Hy. by subst.
Qed.

Lemma elem_of_Array_from_Set (l : list string) (x : string) :
  x ∈ Array_from_Set l ↔ x ∈ l.
Proof. unfold Array_from_Set. rewrite elem_of_foldl_Set_add. set_solver. Qed.

Lemma NoDup_Array_from_Set (l : list string) : NoDup (Array_from_Set l).
Proof. apply NoDup_foldl_Set_add, NoDup_nil_2. Qed.

Lemma elem_of_Object_keys {V} (obj : gmap string V) (k : string) :
  k ∈ Object_keys obj ↔ is_Some (obj !! k).
Proof.
  unfold Object_keys. rewrite list_elem_of_fmap. split.
  - intros [[k' v] [-> Hkv]]. apply elem_of_map_to_list in Hkv. by exists v.
  - intros [v Hv]. exists (k, v). split; [done|]. by apply elem_of_map_to_list.
Qed.

Lemma includes_true (arr : list string) (key : string) :
  includes arr key = true ↔ key ∈ arr.
Proof. unfold includes. apply bool_decide_eq_true. Qed.

Lemma includes_false (arr : list string) (key : string) :
  includes arr key = false ↔ key ∉ arr.
Proof. unfold includes. apply bool_decide_eq_false. Qed.

(** ** The loop of [init] *)

Lemma init_step_included this_keys ig key w :
  key ∈ this_keys → init_step this_keys ig key w = (Normal tt, w).
Proof.
  intros Hin. unfold init_step.
  apply includes_true in Hin. by rewrite Hin.
Qed.

Lemma init_step_missing this_keys ig key :
  key ∉ this_keys →
  init_step this_keys ig key =
    match ig with
    | IBoolean false => throw (mkError (not_defined_message [key]))
    | IBoolean true => console_warn (LogText (not_defined_message [key]))
    | IZero => mret tt
    end.
Proof.
  intros Hin. unfold init_step.
  apply includes_false in Hin. by rewrite Hin.
Qed.

Lemma init_loop_cons this_keys ig key rest w :
  init_loop this_keys ig (key :: rest) w =
    match init_step this_keys ig key w with
    | (Normal _, w') => init_loop this_keys ig rest w'
    | (Throw e, w') => (Throw e, w')
    end.
Proof. reflexivity. Qed.

(** When every required key is known, the loop does nothing. *)
Lemma init_loop_all_included this_keys ig required w :
  Forall (λ key, key ∈ this_keys) required →
  init_loop this_keys ig required w = (Normal tt, w).
Proof.
  induction 1 as [|key rest Hkey _ IH]; [done|].
  by rewrite init_loop_cons, init_step_included.
Qed.

(** Under [false] the loop stops at the first missing key, and the error
    names that key alone. *)
Lemma init_loop_raise_first_missing this_keys known key rest w :
  Forall (λ k, k ∈ this_keys) known → key ∉ this_keys →
  init_loop this_keys (IBoolean false) (known ++ key :: rest) w =
    (Throw (mkError (not_defined_message [key])), w).
Proof.
  intros Hknown Hkey.
  induction Hknown as [|k known Hk _ IH]; simpl app.
  - by rewrite init_loop_cons, init_step_missing.
  - by rewrite init_loop_cons, init_step_included.
Qed.

(** Under [true] the loop warns once for each missing key, one key in
    each warning. *)
Lemma init_loop_warn_each_missing this_keys required w :
  init_loop this_keys (IBoolean true) required w =
    (Normal tt,
     {| process_env := process_env w;
        console := console w ++
          ((λ key, LogText (not_defined_message [key])) <$>
             filter (λ key, key ∉ this_keys) required) |}).
Proof.
  revert w. induction required as [|key rest IH]; intros w.
  - simpl. rewrite app_nil_r. by destruct w.
  - rewrite init_loop_cons.
    destruct (decide (key ∈ this_keys)) as [Hin|Hin].
    + rewrite init_step_included by done. rewrite IH.
      by rewrite filter_cons_False by (intros ?; contradiction).
    + rewrite init_step_missing by done. unfold console_warn.
      rewrite IH. simpl. rewrite filter_cons_True by done.
      by rewrite fmap_cons, <-app_assoc.
Qed.

(** Under [0] the loop never reports anything. *)
Lemma init_loop_silent this_keys required w :
  init_loop this_keys IZero required w = (Normal tt, w).
Proof.
  induction required as [|key rest IH]; [done|].
  rewrite init_loop_cons.
  destruct (decide (key ∈ this_keys)) as [Hin|Hin].
  - by rewrite init_step_included.
  - by rewrite init_step_missing.
Qed.

Lemma new_Env_unfold {G} keys_arg required defaults ig w :
  @new_Env G keys_arg required defaults ig w =
    let this_keys := Array_from_Set (Object_keys (process_env w) ++ keys_arg) in
    match init_loop this_keys (default (IBoolean false) ig) required w with
    | (Normal _, w') =>
        (Normal (mkEnv this_keys required defaults (default (IBoolean false) ig)), w')
    | (Throw e, w') => (Throw e, w')
    end.
Proof. reflexivity. Qed.

(** ** Lookup: evaluation lemmas *)

Ltac unfold_get :=
  unfold get, get_try, try_catch, or_else, env_read, property_read, console_warn,
    throw, mbind, mret, M_mbind, M_mret, M_bind, M_ret.

(** An inherited member is a function or an object, hence truthy. *)
Lemma Object_prototype_Some key v :
  Object_prototype key = Some v → v = VObject key.
Proof. unfold Object_prototype. case_bool_decide; congruence. Qed.

Lemma inherited_or_undefined_None key :
  Object_prototype key = None → inherited_or_undefined key = VUndefined.
Proof. unfold inherited_or_undefined. by intros ->. Qed.

Lemma inherited_or_undefined_Some key v :
  Object_prototype key = Some v → inherited_or_undefined key = VObject key.
Proof.
  intros Hv. unfold inherited_or_undefined. rewrite Hv.
  by apply Object_prototype_Some in Hv.
Qed.

(** A non-empty live value is returned as it is. *)
Lemma get_live {G} (e : Env G) key b w s :
  process_env w !! key = Some s → s ≠ "" →
  get e key b w = (Normal (VString s), w).
Proof.
  intros Hlive Hs. unfold_get. rewrite Hlive. simpl.
  apply String.eqb_neq in Hs. by rewrite Hs.
Qed.

(** The live value read by [get] is falsy when the key has no live value. *)
Lemma env_read_falsy key w :
  no_live_value w key →
  ∃ v, env_read key w = (Normal v, w) ∧ truthy v = false.
Proof.
  unfold env_read. intros [-> | [-> Hproto]]; eexists; split; try reflexivity.
  by rewrite inherited_or_undefined_None.
Qed.

(** A key the environment does not own and [Object.prototype] has: the
    inherited member is returned as it is. *)
Lemma get_inherited {G} (e : Env G) key b w v :
  process_env w !! key = None → Object_prototype key = Some v →
  get e key b w = (Normal (VObject key), w).
Proof.
  intros Hown Hproto. unfold_get. rewrite Hown.
  by rewrite (inherited_or_undefined_Some key v).
Qed.

(** Without a live value and without default inclusion, [get] is [false]. *)
Lemma get_no_default {G} (e : Env G) key w :
  no_live_value w key →
  get e key (Some false) w = (Normal (VBoolean false), w).
Proof.
  unfold_get. intros [-> | [-> Hproto]]; [done|].
  by rewrite inherited_or_undefined_None.
Qed.

(** Without a live value and with default inclusion, [get] reads the
    defaults table. *)
Lemma get_with_default {G} (e : Env G) key w :
  no_live_value w key →
  get e key (Some true) w =
    match default_env e !! key with
    | Some (Data d) => (Normal (VString d), w)
    | None => (Normal (inherited_or_undefined key), w)
    | Some (Accessor err) =>
        match ignoreErrors e with
        | IBoolean false => (Throw err, w)
        | IBoolean true =>
            (Normal (VBoolean false),
             {| process_env := process_env w; console := console w ++ [LogError err] |})
        | IZero => (Normal (VBoolean false), w)
        end
    end.
Proof.
  unfold_get. intros [-> | [-> Hproto]];
    [|rewrite (inherited_or_undefined_None key Hproto)]; simpl;
    destruct (default_env e !! key) as [[d|err]|]; try done;
    by destruct (ignoreErrors e) as [[]|].
Qed.

(** The omitted flag is [false]. *)
Lemma get_omitted {G} (e : Env G) key w :
  get e key None w = get e key (Some false) w.
Proof. reflexivity. Qed.

(** The body of the [try] block logs nothing and leaves the world as it is. *)
Lemma get_try_world {G} (e : Env G) key flag w r w' :
  get_try e key flag w = (r, w') → w' = w.
Proof.
  unfold_get. destruct (truthy _); [by intros [= _ <-]|].
  destruct flag; [|by intros [= _ <-]].
  destruct (default_env e !! key) as [[d|err]|]; by intros [= _ <-].
Qed.

(** The outcome of the body of the [try] block depends on the live
    environment only. *)
Lemma get_try_outcome {G} (e : Env G) key flag w c :
  (get_try e key flag {| process_env := process_env w; console := c |}).1 =
  (get_try e key flag w).1.
Proof.
  unfold_get. simpl. destruct (truthy _); [done|].
  destruct flag; [|done].
  by destruct (default_env e !! key) as [[d|err]|].
Qed.

(** [get] never writes the live environment. *)
Lemma get_process_env {G} (e : Env G) key b w :
  process_env (get e key b w).2 = process_env w.
Proof.
  unfold get, try_catch.
  destruct (get_try e key (default false b) w) as [[v|err] w'] eqn:Htry;
    apply get_try_world in Htry; subst w'; [done|].
  by destruct (ignoreErrors e) as [[]|].
Qed.

(** The outcome of [get] depends on the live environment only. *)
Lemma get_outcome {G} (e : Env G) key b w c :
  (get e key b {| process_env := process_env w; console := c |}).1 =
  (get e key b w).1.
Proof.
  pose proof (get_try_outcome e key (default false b) w c) as Hout.
  unfold get, try_catch.
  destruct (get_try e key (default false b) w) as [[v|err] w1].
  all: destruct (get_try e key (default false b) _) as [[v'|err'] w2].
  all: simpl in Hout; try discriminate Hout.
  - done.
  - injection Hout as ->. by destruct (ignoreErrors e) as [[]|].
Qed.

(** [get] only appends to the console. *)
Lemma get_console {G} (e : Env G) key b w :
  ∃ l, console (get e key b w).2 = console w ++ l.
Proof.
  unfold get, try_catch.
  destruct (get_try e key (default false b) w) as [[v|err] w'] eqn:Htry;
    apply get_try_world in Htry; subst w'.
  - exists []. by rewrite app_nil_r.
  - destruct (ignoreErrors e) as [[]|]; simpl;
      [by eexists|exists []; by rewrite app_nil_r..].
Qed.

(** The same object at another type index answers lookups the same way. *)
Lemma get_retype {G G'} (e : Env G) key b w :
  get (@retype G G' e) key b w = get e key b w.
Proof. reflexivity. Qed.

(** The three cases of the read of the live environment. *)
Lemma env_cases (w : World) (key : string) :
  (∃ s, process_env w !! key = Some s ∧ s ≠ "")
  ∨ (process_env w !! key = None ∧ Object_prototype key = Some (VObject key))
  ∨ no_live_value w key.
Proof.
  unfold no_live_value. destruct (process_env w !! key) as [s|].
  - destruct (decide (s = "")) as [->|Hs]; [by right; right; left|left; by exists s].
  - destruct (Object_prototype key) as [v|] eqn:Hproto.
    + apply Object_prototype_Some in Hproto as ->. by right; left.
    + by right; right; right.
Qed.

(** What [get] can return: a string, [false], an inherited member, or
    [undefined]; the last only with default inclusion, for a key without an
    entry in the defaults table. *)
Lemma get_returns {G} (e : Env G) key b w v w' :
  get e key b w = (Normal v, w') →
  (∃ s, v = VString s) ∨ v = VBoolean false
  ∨ (v = VObject key ∧ Object_prototype key = Some v)
  ∨ (v = VUndefined ∧ b = Some true ∧ default_env e !! key = None).
Proof.
  destruct (env_cases w key) as [(s & Hs & Hne)|[[Hown Hproto]|Hno]].
  { rewrite (get_live e key b w s) by done. intros [= <- _]. eauto. }
  { rewrite (get_inherited e key b w _ Hown Hproto). intros [= <- _]. eauto. }
  destruct b as [[]|].
  - rewrite get_with_default by done.
    destruct (default_env e !! key) as [[d|err]|].
    + intros [= <- _]. eauto.
    + destruct (ignoreErrors e) as [[]|]; intros [= <- _]; eauto.
    + intros [= <- _]. destruct (Object_prototype key) as [v|] eqn:Hproto.
      * rewrite (inherited_or_undefined_Some key v Hproto).
        apply Object_prototype_Some in Hproto as Hv. subst v. eauto.
      * rewrite (inherited_or_undefined_None key Hproto). eauto 6.
  - rewrite get_no_default by done. intros [= <- _]. eauto.
  - rewrite get_omitted, get_no_default by done. intros [= <- _]. eauto.
Qed.

(** The instances of the scenarios are the ones the constructor builds. *)
Lemma throwing_env_constructed ig :
  new_Env ["PORT"] [] throwing_defaults (Some ig) empty_world =
    (Normal (throwing_env ig), empty_world).
Proof. by destruct ig as [[]|]; vm_compute. Qed.

Lemma inherited_env_constructed ig :
  new_Env ["toString"] [] inherited_defaults (Some ig) scenario_world =
    (Normal (inherited_env ig), scenario_world).
Proof. by destruct ig as [[]|]; vm_compute. Qed.

Lemma scenario_env_constructed ig :
  CreateEnv config_noop id id (scenario_args ig) scenario_world =
    (Normal (scenario_env ig), scenario_world).
Proof. by destruct ig as [[]|]; vm_compute. Qed.

(** * The claims *)

(** C4: when every required key is a key of the live environment at
    construction time or a declared key, construction returns the instance
    under every setting of [ignoreErrors] (also the omitted one), and the
    world, hence the console, is as it was: no diagnostic. *)
Theorem new_Env_required_known {G} (K R : list string)
    (defaults : gmap string property) (ig : option IgnoreErrors) (w : World) :
  Forall (λ key, is_Some (process_env w !! key) ∨ key ∈ K) R →
  @new_Env G K R defaults ig w =
    (Normal (mkEnv (Array_from_Set (Object_keys (process_env w) ++ K)) R defaults
                   (default (IBoolean false) ig)), w).
Proof.
  intros Hknown. rewrite new_Env_unfold. cbv zeta.
  rewrite init_loop_all_included; [done|].
  eapply Forall_impl; [exact Hknown|]. intros key Hkey. cbv beta in Hkey.
  rewrite elem_of_Array_from_Set, elem_of_app, elem_of_Object_keys. exact Hkey.
Qed.

Lemma new_Env_required_known_witness :
  @new_Env false scenario_keys scenario_required scenario_defaults (Some Raise)
     scenario_world =
    (Normal (scenario_env Raise), scenario_world).
Proof.
  rewrite (new_Env_required_known scenario_keys scenario_required
             scenario_defaults (Some Raise) scenario_world).
  - vm_compute. reflexivity.
  - apply (bool_decide_unpack _). vm_compute. exact I.
Defined.

(** C8: the known keys of a constructed instance are, as a set, the union
    of the keys of the live environment at construction time and of the
    declared keys; the array holds no key twice; it is the array computed
    from the world of the construction, so it follows neither a later
    lookup nor a later change of the environment. *)
Theorem known_keys_union {G} (K R : list string)
    (defaults : gmap string property) (ig : option IgnoreErrors)
    (w w' : World) (e : Env G) :
  new_Env K R defaults ig w = (Normal e, w') →
  (list_to_set (keys e) : gset string) = dom (process_env w) ∪ list_to_set K ∧
  (∀ k, k ∈ keys e ↔ is_Some (process_env w !! k) ∨ k ∈ K) ∧
  NoDup (keys e) ∧
  keys e = Array_from_Set (Object_keys (process_env w) ++ K).
Proof.
  rewrite new_Env_unfold. cbv zeta.
  destruct (init_loop _ _ R w) as [[[]|err] w1]; [|discriminate].
  intros [= <- _]. simpl.
  assert (∀ k, k ∈ Array_from_Set (Object_keys (process_env w) ++ K)
               ↔ is_Some (process_env w !! k) ∨ k ∈ K) as Hmem.
  { intros k. by rewrite elem_of_Array_from_Set, elem_of_app, elem_of_Object_keys. }
  split_and!; [|exact Hmem|apply NoDup_Array_from_Set|done].
  apply set_eq. intros k.
  rewrite elem_of_list_to_set, Hmem, elem_of_union, elem_of_dom, elem_of_list_to_set.
  done.
Qed.

Lemma known_keys_union_witness :
  (list_to_set (keys (@scenario_env false Raise)) : gset string) =
    dom (process_env scenario_world) ∪ list_to_set scenario_keys
  ∧ (∀ k, k ∈ keys (@scenario_env false Raise)
          ↔ is_Some (process_env scenario_world !! k) ∨ k ∈ scenario_keys)
  ∧ NoDup (keys (@scenario_env false Raise))
  ∧ keys (@scenario_env false Raise) =
      Array_from_Set (Object_keys (process_env scenario_world) ++ scenario_keys).
Proof.
  apply (known_keys_union scenario_keys scenario_required scenario_defaults
           (Some Raise) scenario_world scenario_world).
  vm_compute. reflexivity.
Defined.

(** C1: two required keys, neither known.  The claim has one message that
    enumerates both.  Under [false] the constructor throws at the first
    missing key and the message names that key alone; under [true] it
    warns twice, one key in each warning; under [0] it reports nothing. *)
Theorem init_reports_one_key_per_message :
  @new_Env false [] ["A"; "B"] ∅ (Some Raise) empty_world =
    (Throw (mkError (not_defined_message ["A"])), empty_world)
  ∧ not_defined_message ["A"] ≠ not_defined_message ["A"; "B"]
  ∧ @new_Env false [] ["A"; "B"] ∅ (Some WarnAndContinue) empty_world =
      (Normal (mkEnv [] ["A"; "B"] ∅ WarnAndContinue),
       mkWorld ∅ [LogText (not_defined_message ["A"]);
                  LogText (not_defined_message ["B"])])
  ∧ @new_Env false [] ["A"; "B"] ∅ (Some Silent) empty_world =
      (Normal (mkEnv [] ["A"; "B"] ∅ Silent), empty_world).
Proof.
  split_and!; [by vm_compute| |by vm_compute|by vm_compute].
  vm_compute. discriminate.
Qed.

(** C2: the instance [EnvUtility] stores is typed with default inclusion
    on, the key [PORT] has no live value and has the default [3000].  The
    claim, like the type of the field, has [get] with the flag omitted
    return the default; [get] returns [false], as with the flag [false],
    and the default only with the flag [true]. *)
Lemma get_omitted_flag_ignores_type_flag :
  ∃ u : EnvUtility,
    new_EnvUtility config_noop id id (scenario_args Raise) scenario_world =
      (Normal u, scenario_world)
    ∧ get (env u) "PORT" None scenario_world =
        (Normal (VBoolean false), scenario_world)
    ∧ get (env u) "PORT" (Some true) scenario_world =
        (Normal (VString "3000"), scenario_world)
    ∧ ¬ (∀ (G : bool) (e : Env G) key w,
           get e key None w = get e key (Some G) w).
Proof.
  exists {| env := scenario_env Raise |}.
  split_and!; [by vm_compute..|].
  intros Hall.
  specialize (Hall true (scenario_env Raise) "PORT" scenario_world).
  vm_compute in Hall. discriminate Hall.
Qed.

(** C3: the key [MISSING] has no live value and no entry in the defaults
    table; with default inclusion [get] returns [undefined], which is
    neither a string nor [false]. *)
Theorem get_absent_default_is_undefined :
  process_env scenario_world !! "MISSING" = None
  ∧ scenario_defaults !! "MISSING" = None
  ∧ get (@scenario_env false Raise) "MISSING" (Some true) scenario_world =
      (Normal VUndefined, scenario_world)
  ∧ VUndefined ≠ VBoolean false
  ∧ (∀ s, VUndefined ≠ VString s).
Proof. split_and!; [by vm_compute..|done|done]. Qed.

(** C5: the key [toString] has no value in the live environment and has
    the registered default [fallback].  The claim has [get] return the
    default with default inclusion and [false] without; the read of the
    environment finds the member inherited from [Object.prototype], a
    function, and [get] returns it in all three cases. *)
Theorem get_inherited_name_is_returned :
  process_env scenario_world !! "toString" = None
  ∧ default_env (inherited_env Raise) !! "toString" = Some (Data "fallback")
  ∧ get (inherited_env Raise) "toString" (Some true) scenario_world =
      (Normal (VObject "toString"), scenario_world)
  ∧ get (inherited_env Raise) "toString" (Some false) scenario_world =
      (Normal (VObject "toString"), scenario_world)
  ∧ get (inherited_env Raise) "toString" None scenario_world =
      (Normal (VObject "toString"), scenario_world)
  ∧ VObject "toString" ≠ VString "fallback"
  ∧ VObject "toString" ≠ VBoolean false.
Proof. split_and!; [by vm_compute..|done|done]. Qed.

(** C6: a key whose live value is a non-empty string.  [get] returns that
    string, whatever the flag (also omitted) and whatever [ignoreErrors]. *)
Theorem get_live_value {G} (e : Env G) (key : string) (b : option bool)
    (w : World) (s : string) :
  process_env w !! key = Some s → s ≠ "" →
  get e key b w = (Normal (VString s), w).
Proof. apply get_live. Qed.

Lemma get_live_value_witness :
  get (@scenario_env false Silent) "CLIENT_URL" (Some true) scenario_world =
    (Normal (VString "https://x.test"), scenario_world).
Proof.
  apply (get_live_value (@scenario_env false Silent) "CLIENT_URL" (Some true)
           scenario_world "https://x.test").
  - vm_compute. reflexivity.
  - discriminate.
Defined.

(** C7: a failure of the body of the [try] block of [get] is handled
    according to [ignoreErrors]: under [false] the same error is thrown to
    the caller; under [true] the error is logged and [get] returns [false];
    under [0] [get] returns [false] and logs nothing.  Hence under [true]
    and under [0] every call of [get] returns a value. *)
Theorem get_failure_follows_policy {G} (e : Env G) (key : string)
    (b : option bool) (w : World) :
  (∀ err w', get_try e key (default false b) w = (Throw err, w') →
     get e key b w =
       match ignoreErrors e with
       | IBoolean false => (Throw err, w')
       | IBoolean true =>
           (Normal (VBoolean false),
            {| process_env := process_env w'; console := console w' ++ [LogError err] |})
       | IZero => (Normal (VBoolean false), w')
       end)
  ∧ (ignoreErrors e ≠ Raise → ∃ v w', get e key b w = (Normal v, w')).
Proof.
  split.
  - intros err w' Htry. unfold get, try_catch. rewrite Htry.
    by destruct (ignoreErrors e) as [[]|].
  - intros Hlenient. unfold get, try_catch.
    destruct (get_try e key (default false b) w) as [[v|err] w'].
    + by exists v, w'.
    + destruct (ignoreErrors e) as [[]|]; [|done|]; by eexists _, _.
Qed.

Lemma get_failure_follows_policy_witness :
  get (throwing_env WarnAndContinue) "PORT" (Some true) empty_world =
    (Normal (VBoolean false), mkWorld ∅ [LogError boom])
  ∧ get (throwing_env Raise) "PORT" (Some true) empty_world =
      (Throw boom, empty_world)
  ∧ get (throwing_env Silent) "PORT" (Some true) empty_world =
      (Normal (VBoolean false), empty_world).
Proof.
  split_and!.
  - rewrite (proj1 (get_failure_follows_policy (throwing_env WarnAndContinue)
                      "PORT" (Some true) empty_world) boom empty_world).
    + reflexivity.
    + vm_compute. reflexivity.
  - rewrite (proj1 (get_failure_follows_policy (throwing_env Raise)
                      "PORT" (Some true) empty_world) boom empty_world).
    + reflexivity.
    + vm_compute. reflexivity.
  - rewrite (proj1 (get_failure_follows_policy (throwing_env Silent)
                      "PORT" (Some true) empty_world) boom empty_world).
    + reflexivity.
    + vm_compute. reflexivity.
Defined.

(** C9: for every loader and every argument record, constructing
    [EnvUtility] and reading its field [env] ends as [CreateEnv] does on
    the same arguments: the same error thrown from the same world, or
    instances with the same fields, answering every lookup alike, from the
    same world (the same live environment and the same console). *)
Theorem EnvUtility_env_is_CreateEnv (config : string → M unit)
    (normalize join : string → string) (a : Args.t) (w : World) :
  match CreateEnv config normalize join a w,
        new_EnvUtility config normalize join a w with
  | (Normal created, w1), (Normal utility, w2) =>
      w1 = w2
      ∧ keys (env utility) = keys created
      ∧ required_keys (env utility) = required_keys created
      ∧ default_env (env utility) = default_env created
      ∧ ignoreErrors (env utility) = ignoreErrors created
      ∧ ∀ key b w', get (env utility) key b w' = get created key b w'
  | (Throw err1, w1), (Throw err2, w2) => err1 = err2 ∧ w1 = w2
  | _, _ => False
  end.
Proof.
  unfold new_EnvUtility, mbind, M_mbind, M_bind.
  destruct (CreateEnv config normalize join a w) as [[created|err] w1]; simpl.
  - split_and!; [reflexivity..|]. intros key b w'. apply get_retype.
  - done.
Qed.

(** C10: the outcome of [get] is a function of the instance, the key, the
    flag and the live environment: the console does not matter, [get]
    leaves the live environment as it is and only appends to the console,
    and a second call right after the first has the same outcome. *)
Theorem get_repeatable {G} (e : Env G) (key : string) (b : option bool)
    (w : World) :
  (∀ c, (get e key b {| process_env := process_env w; console := c |}).1 =
        (get e key b w).1)
  ∧ process_env (get e key b w).2 = process_env w
  ∧ (∃ l, console (get e key b w).2 = console w ++ l)
  ∧ (get e key b (get e key b w).2).1 = (get e key b w).1.
Proof.
  split_and!.
  - intros c. apply get_outcome.
  - apply get_process_env.
  - apply get_console.
  - pose proof (get_process_env e key b w) as Henv.
    destruct (get e key b w).2 as [penv c] eqn:Hw. simpl in Henv. subst penv.
    apply get_outcome.
Qed.

(** * Further properties of the constructor *)

Lemma not_missing_iff w K key :
  ¬ missing w K key ↔ key ∈ Array_from_Set (Object_keys (process_env w) ++ K).
Proof.
  rewrite elem_of_Array_from_Set, elem_of_app, elem_of_Object_keys.
  unfold missing. rewrite <-not_eq_None_Some.
  destruct (decide (process_env w !! key = None)), (decide (key ∈ K)); tauto.
Qed.

Lemma missing_iff w K key :
  missing w K key ↔ key ∉ Array_from_Set (Object_keys (process_env w) ++ K).
Proof.
  rewrite <-not_missing_iff. destruct (decide (missing w K key)); tauto.
Qed.

Lemma Exists_missing w K (R : list string) :
  ¬ Forall (λ k, ¬ missing w K k) R → Exists (missing w K) R.
Proof.
  intros Hex. apply not_Forall_Exists in Hex; [|apply _].
  eapply Exists_impl; [exact Hex|]. intros k Hk. simpl in Hk.
  by destruct (decide (missing w K k)).
Qed.

(** A list with an element satisfying [P] splits at the first such element. *)
Lemma split_at_first {A} (P : A → Prop) `{∀ x, Decision (P x)} (l : list A) :
  Exists P l →
  ∃ l1 x l2, l = l1 ++ x :: l2 ∧ Forall (λ y, ¬ P y) l1 ∧ P x.
Proof.
  induction l as [|y l IH]; intros Hex; [by apply Exists_nil in Hex|].
  destruct (decide (P y)) as [Hy|Hy].
  - exists [], y, l. by split_and!.
  - apply Exists_cons in Hex as [?|Hex]; [done|].
    destruct (IH Hex) as (l1 & x & l2 & -> & Hl1 & Hx).
    exists (y :: l1), x, l2. split_and!; [done| |done]. by constructor.
Qed.

(** X1: under [false], given or omitted, the constructor throws at the
    first required key that is missing; the message names that key alone,
    whatever follows it in the list, and nothing is logged. *)
Theorem new_Env_throws_at_first_missing {G} (K known rest : list string)
    (key : string) (defaults : gmap string property) (w : World) :
  Forall (λ k, ¬ missing w K k) known → missing w K key →
  @new_Env G K (known ++ key :: rest) defaults (Some (IBoolean false)) w =
    (Throw (mkError (not_defined_message [key])), w)
  ∧ @new_Env G K (known ++ key :: rest) defaults None w =
      (Throw (mkError (not_defined_message [key])), w).
Proof.
  intros Hknown Hkey.
  assert (init_loop (Array_from_Set (Object_keys (process_env w) ++ K))
            (IBoolean false) (known ++ key :: rest) w =
          (Throw (mkError (not_defined_message [key])), w)) as Hloop.
  { apply init_loop_raise_first_missing; [|by apply missing_iff].
    eapply Forall_impl; [exact Hknown|]. intros k. apply not_missing_iff. }
  split; rewrite new_Env_unfold; cbv zeta; simpl default; by rewrite Hloop.
Qed.

Lemma new_Env_throws_at_first_missing_witness :
  @new_Env false scenario_keys ["CLIENT_URL"; "DB_URL"; "TOKEN"] scenario_defaults
     (Some (IBoolean false)) scenario_world =
    (Throw (mkError (not_defined_message ["DB_URL"])), scenario_world).
Proof.
  apply (new_Env_throws_at_first_missing scenario_keys ["CLIENT_URL"] ["TOKEN"]
           "DB_URL" scenario_defaults scenario_world).
  - apply (bool_decide_unpack _). vm_compute. exact I.
  - apply (bool_decide_unpack _). vm_compute. exact I.
Defined.

(** X2: under [true] the constructor always returns the instance; it
    leaves the live environment as it is and appends to the console one
    warning for each occurrence of a missing key in the required list, in
    the order of the list, each warning naming one key. *)
Theorem new_Env_warns_each_missing {G} (K R : list string)
    (defaults : gmap string property) (w : World) :
  @new_Env G K R defaults (Some (IBoolean true)) w =
    (Normal (mkEnv (Array_from_Set (Object_keys (process_env w) ++ K)) R defaults
                   (IBoolean true)),
     {| process_env := process_env w;
        console := console w ++
          ((λ key, LogText (not_defined_message [key])) <$> filter (missing w K) R) |}).
Proof.
  rewrite new_Env_unfold. cbv zeta. simpl default.
  rewrite init_loop_warn_each_missing.
  do 4 f_equal. apply list_filter_iff. intros k. symmetry. apply missing_iff.
Qed.

(** X3: under [0] the constructor always returns the instance and leaves
    the world as it is, whatever the required keys. *)
Theorem new_Env_silent {G} (K R : list string)
    (defaults : gmap string property) (w : World) :
  @new_Env G K R defaults (Some IZero) w =
    (Normal (mkEnv (Array_from_Set (Object_keys (process_env w) ++ K)) R defaults IZero),
     w).
Proof.
  rewrite new_Env_unfold. cbv zeta. simpl default. by rewrite init_loop_silent.
Qed.

Lemma new_Env_throws_iff_aux {G} (K R : list string)
    (defaults : gmap string property) (ig : option IgnoreErrors) (w : World) :
  (∃ err w', @new_Env G K R defaults ig w = (Throw err, w'))
  ↔ default (IBoolean false) ig = IBoolean false ∧ Exists (missing w K) R.
Proof.
  split.
  - intros (err & w' & Hthrow). rewrite new_Env_unfold in Hthrow. cbv zeta in Hthrow.
    destruct (default (IBoolean false) ig) as [[]|].
    + by rewrite init_loop_warn_each_missing in Hthrow.
    + split; [done|]. apply Exists_missing. intros Hall.
      rewrite init_loop_all_included in Hthrow; [done|].
      eapply Forall_impl; [exact Hall|]. intros k. apply not_missing_iff.
    + by rewrite init_loop_silent in Hthrow.
  - intros [Hig Hex].
    destruct (split_at_first _ _ Hex) as (known & key & rest & -> & Hknown & Hkey).
    exists (mkError (not_defined_message [key])), w.
    rewrite new_Env_unfold. cbv zeta. rewrite Hig.
    rewrite init_loop_raise_first_missing; [done| |by apply missing_iff].
    eapply Forall_impl; [exact Hknown|]. intros k. apply not_missing_iff.
Qed.

(** X4: the constructor throws exactly when [ignoreErrors] is [false]
    (given or omitted) and some required key is missing. *)
Theorem new_Env_throws_iff {G} (K R : list string)
    (defaults : gmap string property) (ig : option IgnoreErrors) (w : World) :
  (∃ err w', @new_Env G K R defaults ig w = (Throw err, w'))
  ↔ default (IBoolean false) ig = IBoolean false ∧ Exists (missing w K) R.
Proof. apply new_Env_throws_iff_aux. Qed.

(** X5: the constructor never writes the live environment and only
    appends to the console; when it throws, the console is as it was. *)
Theorem new_Env_frame {G} (K R : list string)
    (defaults : gmap string property) (ig : option IgnoreErrors) (w : World) :
  process_env (@new_Env G K R defaults ig w).2 = process_env w
  ∧ (∃ l, console (@new_Env G K R defaults ig w).2 = console w ++ l)
  ∧ (∀ err w', @new_Env G K R defaults ig w = (Throw err, w') → w' = w).
Proof.
  rewrite new_Env_unfold. cbv zeta.
  destruct (default (IBoolean false) ig) as [[]|].
  - rewrite init_loop_warn_each_missing. simpl. split_and!; [done|by eexists|done].
  - destruct (decide (Forall (λ k, ¬ missing w K k) R)) as [Hall|Hex].
    + rewrite init_loop_all_included.
      * simpl. split_and!; [done|exists []; by rewrite app_nil_r|done].
      * eapply Forall_impl; [exact Hall|]. intros k. apply not_missing_iff.
    + apply Exists_missing in Hex as Hex'.
      destruct (split_at_first _ _ Hex') as (known & key & rest & -> & Hknown & Hkey).
      rewrite init_loop_raise_first_missing; [| |by apply missing_iff].
      * simpl. split_and!; [done|exists []; by rewrite app_nil_r|by intros ?? [= _ <-]].
      * eapply Forall_impl; [exact Hknown|]. intros k. apply not_missing_iff.
  - rewrite init_loop_silent. simpl.
    split_and!; [done|exists []; by rewrite app_nil_r|done].
Qed.





(** * Further properties of the lookup *)

(** X7: [get] throws exactly when [ignoreErrors] is [false], default
    inclusion is asked for, the read of the live environment is falsy (the
    empty string, or nothing and no inherited member of that name), and
    reading the key from the defaults table throws; the error is the one
    of the table and the world is as it was. *)
Theorem get_throws_iff {G} (e : Env G) (key : string) (b : option bool)
    (w w' : World) (err : Error) :
  get e key b w = (Throw err, w')
  ↔ ignoreErrors e = IBoolean false ∧ b = Some true
    ∧ no_live_value w key
    ∧ default_env e !! key = Some (Accessor err) ∧ w' = w.
Proof.
  split.
  - destruct (env_cases w key) as [(s & Hs & Hne)|[[Hown Hproto]|Hno]].
    { by rewrite (get_live e key b w s). }
    { by rewrite (get_inherited e key b w _ Hown Hproto). }
    destruct b as [[]|].
    + rewrite get_with_default by done.
      destruct (default_env e !! key) as [[d|err']|]; [done| |done].
      destruct (ignoreErrors e) as [[]|]; [done| |done].
      by intros [= -> <-].
    + by rewrite get_no_default.
    + by rewrite get_omitted, get_no_default.
  - intros (Hig & -> & Hno & Hdef & ->).
    rewrite get_with_default by done. by rewrite Hdef, Hig.
Qed.

Lemma get_throws_iff_witness :
  get (throwing_env Raise) "PORT" (Some true) empty_world = (Throw boom, empty_world).
Proof.
  apply (get_throws_iff (throwing_env Raise) "PORT" (Some true)
           empty_world empty_world boom).
  split_and!; [reflexivity..| |vm_compute; reflexivity|reflexivity].
  apply (bool_decide_unpack _). vm_compute. exact I.
Defined.

(** X8: in one case [get] appends to the console: under [true], with
    default inclusion, when the read of the live environment is falsy and
    the read of the defaults table throws; it then appends that one error
    and returns [false].  In every other case [get] leaves the world as it
    is. *)
Theorem get_world {G} (e : Env G) (key : string) (b : option bool) (w : World) :
  (∀ err,
     ignoreErrors e = IBoolean true → b = Some true → no_live_value w key →
     default_env e !! key = Some (Accessor err) →
     get e key b w =
       (Normal (VBoolean false),
        {| process_env := process_env w; console := console w ++ [LogError err] |})
     ∧ (get e key b w).2 ≠ w)
  ∧ ((get e key b w).2 ≠ w →
     ignoreErrors e = IBoolean true ∧ b = Some true ∧ no_live_value w key
     ∧ ∃ err, default_env e !! key = Some (Accessor err)).
Proof.
  split.
  - intros err Hig -> Hno Hdef. rewrite get_with_default by done.
    rewrite Hdef, Hig. split; [done|]. simpl. intros Heq.
    apply (f_equal console) in Heq. simpl in Heq.
    apply (f_equal List.length) in Heq. rewrite length_app in Heq. simpl in Heq. lia.
  - destruct (env_cases w key) as [(s & Hs & Hne)|[[Hown Hproto]|Hno]].
    { by rewrite (get_live e key b w s). }
    { by rewrite (get_inherited e key b w _ Hown Hproto). }
    destruct b as [[]|].
    + rewrite get_with_default by done.
      destruct (default_env e !! key) as [[d|err]|]; [done| |done].
      destruct (ignoreErrors e) as [[]|]; [|done..].
      intros _. split_and!; [done..|]. by exists err.
    + by rewrite get_no_default.
    + by rewrite get_omitted, get_no_default.
Qed.

Lemma get_world_witness :
  get (throwing_env WarnAndContinue) "PORT" (Some true) empty_world =
    (Normal (VBoolean false), mkWorld ∅ [LogError boom])
  ∧ (get (throwing_env WarnAndContinue) "PORT" (Some true) empty_world).2 ≠ empty_world.
Proof.
  apply (proj1 (get_world (throwing_env WarnAndContinue) "PORT" (Some true)
                  empty_world) boom).
  - reflexivity.
  - reflexivity.
  - apply (bool_decide_unpack _). vm_compute. exact I.
  - vm_compute. reflexivity.
Defined.

(** X9: [get] returns [undefined] exactly when default inclusion is asked
    for, the read of the live environment is falsy, the defaults table has
    no entry for the key and the key names no member of [Object.prototype];
    [ignoreErrors] plays no part. *)
Theorem get_undefined_iff {G} (e : Env G) (key : string) (b : option bool)
    (w : World) :
  (∃ w', get e key b w = (Normal VUndefined, w'))
  ↔ b = Some true ∧ no_live_value w key
    ∧ default_env e !! key = None ∧ Object_prototype key = None.
Proof.
  split.
  - intros [w' Hget].
    destruct (env_cases w key) as [(s & Hs & Hne)|[[Hown Hproto]|Hno]].
    { by rewrite (get_live e key b w s) in Hget. }
    { by rewrite (get_inherited e key b w _ Hown Hproto) in Hget. }
    destruct b as [[]|].
    + rewrite get_with_default in Hget by done.
      destruct (default_env e !! key) as [[d|err]|]; [done| |].
      { by destruct (ignoreErrors e) as [[]|]. }
      split_and!; [done..|].
      destruct (Object_prototype key) as [v|] eqn:Hproto; [|done].
      by rewrite (inherited_or_undefined_Some key v Hproto) in Hget.
    + by rewrite get_no_default in Hget.
    + by rewrite get_omitted, get_no_default in Hget.
  - intros (-> & Hno & Hdef & Hproto). exists w.
    rewrite get_with_default by done.
    by rewrite Hdef, inherited_or_undefined_None.
Qed.

Lemma get_undefined_iff_witness :
  ∃ w', get (@scenario_env false Silent) "TOKEN" (Some true) scenario_world =
          (Normal VUndefined, w').
Proof.
  apply (get_undefined_iff (@scenario_env false Silent) "TOKEN" (Some true)
           scenario_world).
  split_and!; [reflexivity| |vm_compute; reflexivity..].
  apply (bool_decide_unpack _). vm_compute. exact I.
Defined.

(** X15: a key for which the read of the live environment is falsy.  With
    default inclusion and a registered default, [get] returns that default,
    also when it is the empty string; with the flag [false] or omitted, it
    returns [false]; the world is as it was, under every setting of
    [ignoreErrors]. *)
Theorem get_without_live_value {G} (e : Env G) (key : string) (w : World) :
  no_live_value w key →
  (∀ d, default_env e !! key = Some (Data d) →
        get e key (Some true) w = (Normal (VString d), w))
  ∧ get e key (Some false) w = (Normal (VBoolean false), w)
  ∧ get e key None w = (Normal (VBoolean false), w).
Proof.
  intros Hno. split_and!.
  - intros d Hd. rewrite get_with_default by done. by rewrite Hd.
  - by apply get_no_default.
  - rewrite get_omitted. by apply get_no_default.
Qed.

Lemma get_without_live_value_witness :
  get (@scenario_env false Raise) "PORT" (Some true) scenario_world =
    (Normal (VString "3000"), scenario_world)
  ∧ get (@scenario_env false Raise) "PORT" (Some false) scenario_world =
      (Normal (VBoolean false), scenario_world).
Proof.
  destruct (get_without_live_value (@scenario_env false Raise) "PORT" scenario_world)
    as (Hdefault & Hfalse & _).
  - apply (bool_decide_unpack _). vm_compute. exact I.
  - split; [|exact Hfalse]. apply Hdefault. vm_compute. reflexivity.
Defined.

(** X16: a key the live environment does not hold and that names a member
    of [Object.prototype]: [get] returns the inherited member, whatever the
    flag, the defaults table and [ignoreErrors], and leaves the world as it
    is; the defaults table is not read. *)
Theorem get_inherited_member {G} (e : Env G) (key : string) (b : option bool)
    (w : World) :
  process_env w !! key = None → key ∈ Object_prototype_names →
  get e key b w = (Normal (VObject key), w).
Proof.
  intros Hown Hname. apply (get_inherited e key b w (VObject key) Hown).
  unfold Object_prototype. by rewrite bool_decide_eq_true_2.
Qed.

Lemma get_inherited_member_witness :
  get (throwing_env Raise) "constructor" (Some true) empty_world =
    (Normal (VObject "constructor"), empty_world).
Proof.
  apply (get_inherited_member (throwing_env Raise) "constructor" (Some true)
           empty_world).
  - vm_compute. reflexivity.
  - apply (bool_decide_unpack _). vm_compute. exact I.
Defined.

(** X10: a required key passes the validation of the constructor as soon
    as it is declared, or set to the empty string; when the read of the
    live environment is falsy for such a key, construction succeeds without
    a diagnostic under every setting and [get] without default inclusion
    returns [false], not a string. *)
Theorem required_key_without_value {G} (K R : list string)
    (defaults : gmap string property) (ig : option IgnoreErrors) (w : World)
    (key : string) :
  key ∈ R → Forall (λ k, ¬ missing w K k) R →
  no_live_value w key →
  ∃ e : Env G,
    new_Env K R defaults ig w = (Normal e, w)
    ∧ key ∈ required_keys e ∧ key ∈ keys e
    ∧ get e key None w = (Normal (VBoolean false), w).
Proof.
  intros HR Hall Hno. eexists. rewrite new_Env_unfold. cbv zeta.
  rewrite init_loop_all_included.
  2: { eapply Forall_impl; [exact Hall|]. intros k. apply not_missing_iff. }
  split_and!; [reflexivity|exact HR| |].
  - simpl. apply not_missing_iff. by eapply Forall_forall in Hall.
  - rewrite get_omitted. by apply get_no_default.
Qed.

Lemma required_key_without_value_witness :
  ∃ e : Env false,
    new_Env ["PORT"; "CLIENT_URL"] ["CLIENT_URL"] ∅ (Some Raise) empty_world =
      (Normal e, empty_world)
    ∧ "CLIENT_URL" ∈ required_keys e ∧ "CLIENT_URL" ∈ keys e
    ∧ get e "CLIENT_URL" None empty_world = (Normal (VBoolean false), empty_world).
Proof.
  apply (required_key_without_value ["PORT"; "CLIENT_URL"] ["CLIENT_URL"] ∅
           (Some Raise) empty_world "CLIENT_URL").
  - apply (bool_decide_unpack _). vm_compute. exact I.
  - apply (bool_decide_unpack _). vm_compute. exact I.
  - apply (bool_decide_unpack _). vm_compute. exact I.
Defined.

(** * Further properties of [CreateEnv] and [EnvUtility] *)

(** X11: [CreateEnv] validates against the environment the loader leaves:
    when the loader returns and every required key is declared or a key of
    that environment, [CreateEnv] returns the instance whose known keys are
    computed from that environment, and adds nothing to what the loader
    did to the world; [EnvUtility] stores the same instance. *)
Theorem CreateEnv_after_loader (config : string → M unit)
    (normalize join : string → string) (a : Args.t) (w w1 : World) :
  config (normalize (join (Args.pathToEnv a))) w = (Normal tt, w1) →
  Forall (λ k, ¬ missing w1 (Args.keys a) k) (Args.requiredKeys a) →
  let created : Env false :=
    mkEnv (Array_from_Set (Object_keys (process_env w1) ++ Args.keys a))
          (Args.requiredKeys a) (Args.defaultEnv a) (Args.ignoreErrors a) in
  CreateEnv config normalize join a w = (Normal created, w1)
  ∧ new_EnvUtility config normalize join a w =
      (Normal {| env := retype created |}, w1).
Proof.
  intros Hconfig Hall created.
  assert (CreateEnv config normalize join a w = (Normal created, w1)) as Hcreate.
  { unfold CreateEnv, mbind, M_mbind, M_bind. rewrite Hconfig.
    rewrite new_Env_unfold. cbv zeta. rewrite init_loop_all_included; [done|].
    eapply Forall_impl; [exact Hall|]. intros k. apply not_missing_iff. }
  split; [done|].
  unfold new_EnvUtility, mbind, M_mbind, M_bind. by rewrite Hcreate.
Qed.

Lemma CreateEnv_after_loader_witness :
  CreateEnv (config_pair "CLIENT_URL" "https://x.test") id id
    (Args.mk ["PORT"] ["CLIENT_URL"] ∅ "./.env" Raise) empty_world =
    (Normal (mkEnv ["CLIENT_URL"; "PORT"] ["CLIENT_URL"] ∅ Raise),
     mkWorld {[ "CLIENT_URL" := "https://x.test" ]} []).
Proof.
  destruct (CreateEnv_after_loader (config_pair "CLIENT_URL" "https://x.test") id id
              (Args.mk ["PORT"] ["CLIENT_URL"] ∅ "./.env" Raise) empty_world
              (mkWorld {[ "CLIENT_URL" := "https://x.test" ]} [])) as [Hcreate _].
  - vm_compute. reflexivity.
  - apply (bool_decide_unpack _). vm_compute. exact I.
  - rewrite Hcreate. vm_compute. reflexivity.
Defined.

(** X12: when the loader throws, [CreateEnv] and the constructor of
    [EnvUtility] throw the same error from the world the loader left: no
    instance is built and no required key is reported, whatever
    [ignoreErrors]. *)
Theorem CreateEnv_loader_throws (config : string → M unit)
    (normalize join : string → string) (a : Args.t) (w w1 : World) (err : Error) :
  config (normalize (join (Args.pathToEnv a))) w = (Throw err, w1) →
  CreateEnv config normalize join a w = (Throw err, w1)
  ∧ new_EnvUtility config normalize join a w = (Throw err, w1).
Proof.
  intros Hconfig.
  assert (CreateEnv config normalize join a w = (Throw err, w1)) as Hcreate.
  { unfold CreateEnv, mbind, M_mbind, M_bind. by rewrite Hconfig. }
  split; [done|].
  unfold new_EnvUtility, mbind, M_mbind, M_bind. by rewrite Hcreate.
Qed.

Lemma CreateEnv_loader_throws_witness :
  CreateEnv (config_throws boom) id id
    (Args.mk [] ["CLIENT_URL"] ∅ "./.env" Silent) empty_world =
    (Throw boom, empty_world).
Proof.
  apply (CreateEnv_loader_throws (config_throws boom) id id
           (Args.mk [] ["CLIENT_URL"] ∅ "./.env" Silent) empty_world empty_world boom).
  reflexivity.
Defined.

(** X13: [CreateEnv] throws exactly when the loader throws, or the loader
    returns, [ignoreErrors] is [false] and a required key is neither
    declared nor a key of the environment the loader left. *)
Theorem CreateEnv_throws_iff (config : string → M unit)
    (normalize join : string → string) (a : Args.t) (w : World) :
  (∃ err w', CreateEnv config normalize join a w = (Throw err, w'))
  ↔ (∃ err w1, config (normalize (join (Args.pathToEnv a))) w = (Throw err, w1))
    ∨ (∃ w1, config (normalize (join (Args.pathToEnv a))) w = (Normal tt, w1)
             ∧ Args.ignoreErrors a = IBoolean false
             ∧ Exists (missing w1 (Args.keys a)) (Args.requiredKeys a)).
Proof.
  unfold CreateEnv, mbind, M_mbind, M_bind.
  destruct (config (normalize (join (Args.pathToEnv a))) w) as [[[]|err0] w1].
  - pose proof (@new_Env_throws_iff_aux false (Args.keys a) (Args.requiredKeys a)
                  (Args.defaultEnv a) (Some (Args.ignoreErrors a)) w1) as Hiff.
    simpl in Hiff. split.
    + intros (err & w' & Hthrow). right. exists w1. split; [done|].
      apply Hiff. exists err, w'.
      destruct (new_Env _ _ _ _ w1) as [[e|err'] w2]; [done|exact Hthrow].
    + intros [(err & w2 & [=])|(w2 & [= <-] & Hig & Hex)].
      destruct (proj2 Hiff (conj Hig Hex)) as (err & w' & Hthrow).
      exists err, w'. by rewrite Hthrow.
  - split; [|by eauto]. intros _. left. by eauto.
Qed.

(** * What a constructed instance guarantees *)

(** X14: when the constructor returns under [false], given or omitted,
    every required key of the instance is one of its known keys and the
    world is as it was. *)
Theorem required_keys_known_under_false {G} (K R : list string)
    (defaults : gmap string property) (ig : option IgnoreErrors)
    (w w' : World) (e : Env G) :
  default (IBoolean false) ig = IBoolean false →
  new_Env K R defaults ig w = (Normal e, w') →
  Forall (λ key, key ∈ keys e) (required_keys e) ∧ w' = w.
Proof.
  intros Hig Hnew.
  destruct (decide (Forall (λ k, ¬ missing w K k) R)) as [Hall|Hex].
  - rewrite new_Env_unfold in Hnew. cbv zeta in Hnew.
    rewrite init_loop_all_included in Hnew.
    2: { eapply Forall_impl; [exact Hall|]. intros k. apply not_missing_iff. }
    injection Hnew as <- <-. simpl. split; [|done].
    eapply Forall_impl; [exact Hall|]. intros k. apply not_missing_iff.
  - apply Exists_missing in Hex.
    destruct (proj2 (@new_Env_throws_iff_aux G K R defaults ig w) (conj Hig Hex))
      as (err & w1 & Hthrow).
    rewrite Hthrow in Hnew. discriminate Hnew.
Qed.

Lemma required_keys_known_under_false_witness :
  Forall (λ key, key ∈ keys (@scenario_env false Raise))
         (required_keys (@scenario_env false Raise))
  ∧ scenario_world = scenario_world.
Proof.
  apply (required_keys_known_under_false scenario_keys scenario_required
           scenario_defaults (Some Raise) scenario_world scenario_world).
  - reflexivity.
  - vm_compute. reflexivity.
Defined.
